(** * DTC Live Tracker: the client's bus list and the dissemination engine

    The repository holds a React component ([App], the live tracker page) and
    the bootstrap of an Express/Socket.IO server.  The component keeps the
    list of buses in its state, replaces a bus when a [busLocationUpdate]
    event arrives on the socket, and derives from the list the filtered
    view and the Live Stats counters.

    Module [App] embeds that component.  Module [Engine] models the
    sequence-numbered store and broadcast hub that the specification
    describes and for which the sources hold no code. *)

From Stdlib Require Import ZArith String Ascii List Bool Lia.
From stdpp Require Import base option list strings pretty gmap fin_maps.

Local Open Scope string_scope.
Local Open Scope list_scope.

(* ===================================================================== *)
(** * The React component *)
(* ===================================================================== *)

Module App.

(** A bus document as the component reads it.  [routeNumber], [from] and
    [to] are strings on which the component calls [toLowerCase] without a
    guard; [currentStop] and [eta] are read through [&&] / [||] and may be
    absent.  The identifier, the status and the two passenger numbers are
    whatever the JSON object holds, [None] standing for an absent
    property. *)
Record Bus := mkBus {
  _id : option string;
  routeNumber : string;
  registrationNumber : string;
  from : string;
  to : string;
  currentStop : option string;
  nextStop : string;
  status : option string;
  eta : option string;
  currentPassengers : option Z;
  capacity : option Z
}.

(** [bus._id === updatedBus._id]: strict equality of two identifiers; two
    absent identifiers ([undefined === undefined]) are equal. *)
Definition sameId (bus updatedBus : Bus) : bool :=
  bool_decide (_id bus = _id updatedBus).

(** The [busLocationUpdate] handler:
    [setBuses(prevBuses => prevBuses.map(bus =>
       bus._id === updatedBus._id ? updatedBus : bus))]. *)
Definition busLocationUpdate (updatedBus : Bus) (prevBuses : list Bus) : list Bus :=
  map (fun bus => if sameId bus updatedBus then updatedBus else bus) prevBuses.

(** The successive values of [buses] while a run of [busLocationUpdate]
    events is handled: every event calls [setBuses] once. *)
Fixpoint onUpdates (events : list Bus) (prevBuses : list Bus) : list (list Bus) :=
  match events with
  | [] => []
  | updatedBus :: rest =>
      let next := busLocationUpdate updatedBus prevBuses in
      next :: onUpdates rest next
  end.

(** ** The component state and the events that change it *)

Record AppState := mkApp {
  buses : list Bus;
  selectedRoute : string;
  searchQuery : string;
  selectedBus : option Bus;
  isConnected : bool;
  loading : bool;
  error : option string
}.

Inductive Event :=
| Connect
| Disconnect
| BusLocationUpdate (updatedBus : Bus)
| ConnectError
| FetchStart
| FetchOk (data : list Bus)
| FetchFailed
| SetSearchQuery (q : string)
| SetSelectedRoute (r : string)
| SetSelectedBus (b : Bus).

Definition initialState : AppState :=
  mkApp [] "" "" None false true None.

Definition step (e : Event) (s : AppState) : AppState :=
  match e with
  | Connect =>
      mkApp (buses s) (selectedRoute s) (searchQuery s) (selectedBus s) true (loading s) (error s)
  | Disconnect | ConnectError =>
      mkApp (buses s) (selectedRoute s) (searchQuery s) (selectedBus s) false (loading s) (error s)
  | BusLocationUpdate updatedBus =>
      mkApp (busLocationUpdate updatedBus (buses s)) (selectedRoute s) (searchQuery s)
            (selectedBus s) (isConnected s) (loading s) (error s)
  | FetchStart =>
      mkApp (buses s) (selectedRoute s) (searchQuery s) (selectedBus s) (isConnected s) true (error s)
  | FetchOk data =>
      mkApp data (selectedRoute s) (searchQuery s) (selectedBus s) (isConnected s) false None
  | FetchFailed =>
      mkApp (buses s) (selectedRoute s) (searchQuery s) (selectedBus s) (isConnected s) false
            (Some "Failed to fetch bus data. Make sure the backend is running.")
  | SetSearchQuery q =>
      mkApp (buses s) (selectedRoute s) q (selectedBus s) (isConnected s) (loading s) (error s)
  | SetSelectedRoute r =>
      mkApp (buses s) r (searchQuery s) (selectedBus s) (isConnected s) (loading s) (error s)
  | SetSelectedBus b =>
      mkApp (buses s) (selectedRoute s) (searchQuery s) (Some b) (isConnected s) (loading s) (error s)
  end.

Definition run (events : list Event) (s : AppState) : AppState :=
  fold_left (fun s e => step e s) events s.

(** ** Search and filter *)

(** [toLowerCase] on the ASCII letters [A]-[Z], the others left as they
    are.  JavaScript also folds letters outside ASCII; on strings of ASCII
    characters the two agree. *)
Definition lowerAscii (c : ascii) : ascii :=
  let n := nat_of_ascii c in
  if (65 <=? n)%nat && (n <=? 90)%nat then ascii_of_nat (n + 32) else c.

Fixpoint toLowerCase (s : string) : string :=
  match s with
  | EmptyString => EmptyString
  | String c s' => String (lowerAscii c) (toLowerCase s')
  end.

(** [s.includes(sub)]. *)
Fixpoint includes (s sub : string) : bool :=
  String.prefix sub s ||
  match s with
  | EmptyString => false
  | String _ s' => includes s' sub
  end.

Definition isEmpty (s : string) : bool := String.eqb s "".

(** The predicate of [buses.filter(bus => ...)] in [filteredBuses]. *)
Definition matchesFilter (selectedRoute searchQuery : string) (bus : Bus) : bool :=
  (isEmpty selectedRoute || String.eqb (routeNumber bus) selectedRoute) &&
  (isEmpty searchQuery ||
   includes (toLowerCase (routeNumber bus)) (toLowerCase searchQuery) ||
   includes (toLowerCase (from bus)) (toLowerCase searchQuery) ||
   includes (toLowerCase (to bus)) (toLowerCase searchQuery) ||
   match currentStop bus with
   | Some stop => negb (isEmpty stop) && includes (toLowerCase stop) (toLowerCase searchQuery)
   | None => false
   end).

Definition filteredBuses (selectedRoute searchQuery : string) (buses : list Bus) : list Bus :=
  List.filter (matchesFilter selectedRoute searchQuery) buses.

(** ** Live Stats *)

Definition hasStatus (label : string) (b : Bus) : bool :=
  bool_decide (status b = Some label).

Definition activeBuses (buses : list Bus) : nat := length buses.

Definition onTimeCount (buses : list Bus) : nat :=
  length (List.filter (hasStatus "On Time") buses).

Definition delayedCount (buses : list Bus) : nat :=
  length (List.filter (hasStatus "Delayed") buses).

(** ** The passenger display *)

(** A number interpolated into JSX: its decimal digits, and nothing for an
    absent property. *)
Definition showNumber (n : option Z) : string :=
  match n with
  | Some z => pretty z
  | None => ""
  end.

(** [{bus.currentPassengers}/{bus.capacity}]. *)
Definition passengerLabel (bus : Bus) : string :=
  String.append (showNumber (currentPassengers bus))
                (String.append "/" (showNumber (capacity bus))).

(** The two values of the closed status enumeration. *)
Definition enumStatus (b : Bus) : Prop :=
  status b = Some "On Time" \/ status b = Some "Delayed".

(** ** What the specification asks of an incoming update

    These predicates follow the wording of the specification; the component
    itself never evaluates them.  They scope the statements below. *)

Definition missingIdentifier (u : Bus) : Prop :=
  _id u = None \/ _id u = Some "".

Definition hasIdentifier (b : Bus) : Prop :=
  exists s, _id b = Some s /\ s <> "".

Definition unrecognizedStatus (u : Bus) : Prop :=
  exists s, status u = Some s /\ s <> "On Time" /\ s <> "Delayed".

Definition validUpdate (u : Bus) : Prop :=
  hasIdentifier u /\ (status u = None \/ enumStatus u).

(** The clamping formula of the specification, [max(0, min(count, capacity))]. *)
Definition clamp (count capacity : Z) : Z := Z.max 0 (Z.min count capacity).

(** ** Sample fleet *)

Definition bus534 : Bus :=
  mkBus (Some "b1") "534" "DL1PC0534" "Anand Vihar" "Mehrauli" (Some "ITO")
        "Pragati Maidan" (Some "On Time") (Some "5 min") (Some 10%Z) (Some 40%Z).

Definition bus764 : Bus :=
  mkBus (Some "b2") "764" "DL1PC0764" "Nehru Place" "Najafgarh" None
        "Dhaula Kuan" (Some "Delayed") None (Some 31%Z) (Some 40%Z).

(** [bus534] reported again with a status outside the enumeration. *)
Definition bus534_unknown : Bus :=
  mkBus (Some "b1") "534" "DL1PC0534" "Anand Vihar" "Mehrauli" (Some "ITO")
        "Pragati Maidan" (Some "Unknown") (Some "5 min") (Some 10%Z) (Some 40%Z).

(** [bus534] reported with five passengers more than its capacity. *)
Definition bus534_overfull : Bus :=
  mkBus (Some "b1") "534" "DL1PC0534" "Anand Vihar" "Mehrauli" (Some "ITO")
        "Pragati Maidan" (Some "On Time") (Some "5 min") (Some 45%Z) (Some 40%Z).

(** A document and an update that both lack [_id]. *)
Definition anonymousBus : Bus :=
  mkBus None "901" "DL1PC0901" "Badarpur" "Karol Bagh" None
        "Ashram" (Some "On Time") None (Some 12%Z) (Some 40%Z).

Definition anonymousUpdate : Bus :=
  mkBus None "901" "DL1PC0901" "Badarpur" "Karol Bagh" (Some "Ashram")
        "Lajpat Nagar" (Some "Delayed") None (Some 20%Z) (Some 40%Z).

(** Strings made of ASCII characters only, on which [toLowerCase] above
    is JavaScript's. *)
Definition isAsciiChar (c : ascii) : bool := (nat_of_ascii c <? 128)%nat.

Fixpoint isAsciiString (s : string) : bool :=
  match s with
  | EmptyString => true
  | String c s' => isAsciiChar c && isAsciiString s'
  end.

(** The fields of a bus that the search reads are ASCII. *)
Definition searchableAscii (b : Bus) : bool :=
  isAsciiString (routeNumber b) && isAsciiString (from b) && isAsciiString (to b) &&
  match currentStop b with
  | Some stop => isAsciiString stop
  | None => true
  end.

(** The query [q] occurs in [field] when letter case is ignored: the
    lower-cased field is some text, the lower-cased query, some text. *)
Definition occursIn (q field : string) : Prop :=
  exists pre post, toLowerCase field = pre +:+ toLowerCase q +:+ post.

(** ** The route dropdown *)

(** [new Set(...)] keeps its values in insertion order and skips a value it
    already holds. *)
Definition setAdd (seen : list string) (x : string) : list string :=
  if bool_decide (x ∈ seen) then seen else seen ++ [x].

(** The test of [setAdd], as a filter. *)
Definition notIn (seen : list string) (r : string) : bool :=
  negb (bool_decide (r ∈ seen)).

(** [routes = [...new Set(buses.map(bus => bus.routeNumber))]]. *)
Definition routes (buses : list Bus) : list string :=
  fold_left setAdd (map routeNumber buses) [].

(** ** What is rendered *)

(** The three returns of the component: the loading screen while
    [loading], else the error screen when [error] is truthy, else the
    tracker. *)
Inductive Screen :=
| LoadingScreen
| ErrorScreen (message : string)
| TrackerScreen.

Definition render (s : AppState) : Screen :=
  if loading s then LoadingScreen
  else match error s with
       | Some message => if isEmpty message then TrackerScreen else ErrorScreen message
       | None => TrackerScreen
       end.

(** The fetch events of a run, and the last of them. *)
Inductive FetchPhase := Fetching | Fetched | Failed.

Definition fetchPhase (e : Event) : option FetchPhase :=
  match e with
  | FetchStart => Some Fetching
  | FetchOk _ => Some Fetched
  | FetchFailed => Some Failed
  | _ => None
  end.

Definition lastFetch (events : list Event) : option FetchPhase :=
  last (omap fetchPhase events).

Definition isFetchOk (e : Event) : bool :=
  match e with
  | FetchOk _ => true
  | _ => false
  end.

(** What the socket last reported about the connection: [connect] sets
    the flag, [disconnect] and [connect_error] clear it. *)
Definition connectionEvent (e : Event) : option bool :=
  match e with
  | Connect => Some true
  | Disconnect | ConnectError => Some false
  | _ => None
  end.

Definition lastConnection (events : list Event) : option bool :=
  last (omap connectionEvent events).

(** The [busLocationUpdate] events of a run, in order. *)
Definition updatesOf (events : list Event) : list Bus :=
  omap (fun e => match e with BusLocationUpdate u => Some u | _ => None end) events.

(** The list once a run of [busLocationUpdate] events has been handled. *)
Definition afterUpdates (events : list Bus) (prevBuses : list Bus) : list Bus :=
  fold_left (fun bs updatedBus => busLocationUpdate updatedBus bs) events prevBuses.

(** The marker of the bus at [index] of the filtered list:
    [left: 20 + (index * 15) % 60] and [top: 25 + (index * 20) % 40],
    in per cent of the map. *)
Definition markerLeft (index : nat) : nat := 20 + (index * 15) mod 60.
Definition markerTop (index : nat) : nat := 25 + (index * 20) mod 40.




(** [selectedBus?._id === bus._id]: the card and marker of [bus] are
    highlighted, and its Next Stops panel is open. *)
Definition isSelected (selectedBus : option Bus) (bus : Bus) : bool :=
  bool_decide (selectedBus ≫= _id = _id bus).

End App.

(* ===================================================================== *)
(** * The dissemination engine of the specification *)
(* ===================================================================== *)

(** The sources stop short of the engine: the server file ends once the
    database connection is opened, and the page only consumes what the
    server emits.  The store, the ingestor and the hub below are therefore
    written from the specification's contracts. *)

Module Engine.

(** Modelled from the spec: the closed status enumeration of a Vehicle,
    which no source file declares. *)
Inductive Status := OnTime | Delayed.

(** Modelled from the spec: the Vehicle record of the data model.  Every
    field but the identifier stays absent until an update reports it.  The
    last-update timestamp is left out: no operation of the specification
    takes a clock reading. *)
Record Vehicle := mkVehicle {
  identifier : string;
  routeNumber : option string;
  origin : option string;
  destination : option string;
  currentStop : option string;
  nextStop : option string;
  status : option Status;
  eta : option string;
  passengerCount : option Z;
  capacity : option Z
}.

(** Modelled from the spec: the structured update record of the ingestion
    boundary, every field optional. *)
Record RawUpdate := mkRaw {
  raw_identifier : option string;
  raw_routeNumber : option string;
  raw_from : option string;
  raw_to : option string;
  raw_currentStop : option string;
  raw_nextStop : option string;
  raw_status : option string;
  raw_eta : option string;
  raw_currentPassengers : option Z;
  raw_capacity : option Z
}.

(** Modelled from the spec: the one error of the ingestion path. *)
Inductive UpdateError := InvalidUpdate.

(** Modelled from the spec: the status labels of the enumeration, spelled
    as the page displays them. *)
Definition parseStatus (s : string) : option Status :=
  if String.eqb s "On Time" then Some OnTime
  else if String.eqb s "Delayed" then Some Delayed
  else None.

(** Modelled from the spec: [count = max(0, min(count, capacity))]. *)
Definition clamp (count cap : Z) : Z := Z.max 0 (Z.min count cap).

(** Modelled from the spec: the validation of UpdateIngestor.  It yields
    the partial vehicle to merge and the anomaly flag, or [InvalidUpdate]
    for a missing or empty identifier or an unrecognized status. *)
Definition validate (raw : RawUpdate) : UpdateError + (Vehicle * bool) :=
  match raw_identifier raw with
  | None => inl InvalidUpdate
  | Some id =>
      if String.eqb id "" then inl InvalidUpdate
      else
        let st :=
          match raw_status raw with
          | None => Some None
          | Some label =>
              match parseStatus label with
              | Some v => Some (Some v)
              | None => None
              end
          end in
        match st with
        | None => inl InvalidUpdate
        | Some st =>
            let '(count, anomaly) :=
              match raw_currentPassengers raw, raw_capacity raw with
              | Some c, Some k => (Some (clamp c k), negb (Z.eqb (clamp c k) c))
              | c, _ => (c, false)
              end in
            inr (mkVehicle id (raw_routeNumber raw) (raw_from raw) (raw_to raw)
                           (raw_currentStop raw) (raw_nextStop raw) st (raw_eta raw)
                           count (raw_capacity raw),
                 anomaly)
        end
  end.

(** Modelled from the spec: a field of a partial update replaces the
    stored one when it is present. *)
Definition orElse {A : Type} (new old : option A) : option A :=
  match new with
  | Some _ => new
  | None => old
  end.

(** Modelled from the spec: a partial update merged onto the existing
    state; the first update for an identifier creates the vehicle. *)
Definition merge (patch : Vehicle) (old : option Vehicle) : Vehicle :=
  match old with
  | None => patch
  | Some o =>
      mkVehicle (identifier patch)
                (orElse (routeNumber patch) (routeNumber o))
                (orElse (origin patch) (origin o))
                (orElse (destination patch) (destination o))
                (orElse (currentStop patch) (currentStop o))
                (orElse (nextStop patch) (nextStop o))
                (orElse (status patch) (status o))
                (orElse (eta patch) (eta o))
                (orElse (passengerCount patch) (passengerCount o))
                (orElse (capacity patch) (capacity o))
  end.

(** Modelled from the spec: VehicleStateStore, the map from identifier to
    current state together with the global sequence number. *)
Record Store := mkStore {
  sequenceNumber : nat;
  vehicles : gmap string Vehicle
}.

(** Modelled from the spec: the store before any update, at sequence
    number 0. *)
Definition emptyStore : Store := mkStore 0 ∅.


(** Modelled from the spec: [getAll()], the listing of the store. *)
Definition listing (m : gmap string Vehicle) : list Vehicle :=
  snd <$> map_to_list m.

(** Modelled from the spec: [getAll()] on the store. *)
Definition getAll (s : Store) : list Vehicle := listing (vehicles s).

(** Modelled from the spec: a DiffEvent, an upsert or a removal tagged
    with the sequence number of the store. *)
Inductive Change :=
| Upsert (v : Vehicle)
| Remove (id : string).

Record DiffEvent := mkDiff {
  seqNo : nat;
  change : Change
}.

(** Modelled from the spec: what [apply] is asked to do, a validated
    partial update or the explicit removal of a vehicle. *)
Inductive Mutation :=
| Merge (patch : Vehicle)
| Evict (id : string).

(** Modelled from the spec: [apply], the only mutator of the store.  It
    advances the sequence number by one and pairs the new state with the
    DiffEvent that describes it. *)
Definition apply (m : Mutation) (s : Store) : Store * DiffEvent :=
  let n := S (sequenceNumber s) in
  match m with
  | Merge patch =>
      let v := merge patch (vehicles s !! identifier patch) in
      (mkStore n (<[identifier patch := v]> (vehicles s)), mkDiff n (Upsert v))
  | Evict id =>
      (mkStore n (delete id (vehicles s)), mkDiff n (Remove id))
  end.

(** Modelled from the spec: a sequence of [apply] calls, with the events
    they return. *)
Fixpoint applyAll (ms : list Mutation) (s : Store) : Store * list DiffEvent :=
  match ms with
  | [] => (s, [])
  | m :: rest =>
      let '(s1, d) := apply m s in
      let '(s2, ds) := applyAll rest s1 in
      (s2, d :: ds)
  end.

(** Modelled from the spec: the result of [ingest], an error or the
    DiffEvent of the store with the anomaly flag of the clamping. *)
Inductive Outcome :=
| Rejected (e : UpdateError)
| Applied (d : DiffEvent) (anomaly : bool).

(** Modelled from the spec: [ingest], validation first and [apply] on
    success; a rejected update leaves the store as it was. *)
Definition ingest (raw : RawUpdate) (s : Store) : Store * Outcome :=
  match validate raw with
  | inl e => (s, Rejected e)
  | inr (patch, anomaly) =>
      let '(s', d) := apply (Merge patch) s in
      (s', Applied d anomaly)
  end.

(** Modelled from the spec: a sequence of [ingest] calls, with their
    results. *)
Fixpoint ingestAll (raws : list RawUpdate) (s : Store) : Store * list Outcome :=
  match raws with
  | [] => (s, [])
  | raw :: rest =>
      let '(s1, o) := ingest raw s in
      let '(s2, os) := ingestAll rest s1 in
      (s2, o :: os)
  end.

(** Modelled from the spec: the events of the updates that were applied. *)
Definition appliedDiffs (os : list Outcome) : list DiffEvent :=
  omap (fun o => match o with Applied d _ => Some d | Rejected _ => None end) os.

(** Modelled from the spec: a registered subscriber, the sequence number
    of the last event sent to it and its bounded delivery queue, oldest
    event first. *)
Record Subscriber := mkSubscriber {
  lastSent : option nat;
  queue : list DiffEvent
}.

(** Modelled from the spec: BroadcastHub with the store it serialises
    access to: the subscriber registry by handle and the next free
    handle. *)
Record Hub := mkHub {
  store : Store;
  subscribers : gmap nat Subscriber;
  nextHandle : nat
}.

(** Modelled from the spec: delivery of one event to one subscriber.  A
    queue that already holds [bound] events overflows and the subscriber
    is closed. *)
Definition enqueue (bound : nat) (d : DiffEvent) (sub : Subscriber) : option Subscriber :=
  if decide (length (queue sub) < bound)
  then Some (mkSubscriber (Some (seqNo d)) (queue sub ++ [d]))
  else None.

(** Modelled from the spec: [publish], the event handed to every
    registered subscriber. *)
Definition publish (bound : nat) (d : DiffEvent) (subs : gmap nat Subscriber)
  : gmap nat Subscriber :=
  omap (enqueue bound d) subs.

(** Modelled from the spec: what a subscriber holds on its side, the
    snapshot it was given at its join and the events it has taken from
    its queue since. *)
Record View := mkView {
  snapshotSequenceNumber : nat;
  snapshot : list Vehicle;
  received : list DiffEvent
}.

(** Modelled from the spec: the hub together with the views of all the
    subscribers that ever joined. *)
Record World := mkWorld {
  hub : Hub;
  views : gmap nat View
}.

(** Modelled from the spec: the engine at process start. *)
Definition initialWorld : World := mkWorld (mkHub emptyStore ∅ 0) ∅.

(** Modelled from the spec: the operations that pass through the
    serialization point, each of them indivisible; a run of the engine is
    any interleaving of them. *)
Inductive Op :=
| OpIngest (raw : RawUpdate)
| OpRemove (id : string)
| OpSubscribe
| OpUnsubscribe (handle : nat)
| OpTake (handle : nat).

(** Modelled from the spec: [apply] and [publish] as one step. *)
Definition applyAndPublish (bound : nat) (m : Mutation) (w : World) : World :=
  let h := hub w in
  let '(s', d) := apply m (store h) in
  mkWorld (mkHub s' (publish bound d (subscribers h)) (nextHandle h)) (views w).

(** Modelled from the spec: [subscribe], the snapshot and the
    registration taken as one step. *)
Definition subscribe (w : World) : World :=
  let h := hub w in
  let k := nextHandle h in
  mkWorld (mkHub (store h) (<[k := mkSubscriber None []]> (subscribers h)) (S k))
          (<[k := mkView (sequenceNumber (store h)) (getAll (store h)) []]> (views w)).

(** Modelled from the spec: [unsubscribe], idempotent. *)
Definition unsubscribe (k : nat) (w : World) : World :=
  let h := hub w in
  mkWorld (mkHub (store h) (delete k (subscribers h)) (nextHandle h)) (views w).

(** Modelled from the spec: a subscriber draining one event from its own
    queue. *)
Definition take (k : nat) (w : World) : World :=
  let h := hub w in
  match subscribers h !! k with
  | Some sub =>
      match queue sub with
      | d :: rest =>
          mkWorld (mkHub (store h)
                         (<[k := mkSubscriber (lastSent sub) rest]> (subscribers h))
                         (nextHandle h))
                  (alter (fun v => mkView (snapshotSequenceNumber v) (snapshot v)
                                          (received v ++ [d])) k (views w))
      | [] => w
      end
  | None => w
  end.

(** Modelled from the spec: one operation at the serialization point; a
    rejected update changes nothing and publishes nothing. *)
Definition stepOp (bound : nat) (op : Op) (w : World) : World :=
  match op with
  | OpIngest raw =>
      match validate raw with
      | inl _ => w
      | inr (patch, _) => applyAndPublish bound (Merge patch) w
      end
  | OpRemove id => applyAndPublish bound (Evict id) w
  | OpSubscribe => subscribe w
  | OpUnsubscribe k => unsubscribe k w
  | OpTake k => take k w
  end.

(** Modelled from the spec: a run, the operations in the order in which
    the serialization point takes them. *)
Definition runOps (bound : nat) (ops : list Op) (w : World) : World :=
  fold_left (fun w op => stepOp bound op w) ops w.

(** Modelled from the spec: one event of a diff stream replayed onto a
    snapshot. *)
Definition applyDiff (m : gmap string Vehicle) (d : DiffEvent) : gmap string Vehicle :=
  match change d with
  | Upsert v => <[identifier v := v]> m
  | Remove id => delete id m
  end.

(** Modelled from the spec: the replay of a whole stream. *)
Definition replay (ds : list DiffEvent) (m : gmap string Vehicle) : gmap string Vehicle :=
  fold_left applyDiff ds m.

(** Modelled from the spec: a snapshot listing read back as a map by
    identifier. *)
Definition fromSnapshot (l : list Vehicle) : gmap string Vehicle :=
  list_to_map ((fun v => (identifier v, v)) <$> l).

(** ** What holds along every run *)

(** Every vehicle is stored under its own identifier. *)
Definition keysAgree (m : gmap string Vehicle) : Prop :=
  forall k v, m !! k = Some v -> identifier v = k.

(** The events [ds] carry the sequence numbers [n+1], [n+2], ... *)
Definition numberedFrom (n : nat) (ds : list DiffEvent) : Prop :=
  seqNo <$> ds = seq (S n) (length ds).

(** A view together with the events still queued for it continues its
    snapshot up to the present state of the store. *)
Definition inSync (s : Store) (v : View) (pending : list DiffEvent) : Prop :=
  numberedFrom (snapshotSequenceNumber v) (received v ++ pending) /\
  snapshotSequenceNumber v + length (received v ++ pending) = sequenceNumber s /\
  replay (received v ++ pending) (fromSnapshot (snapshot v)) = vehicles s.

Record invariant (w : World) : Prop := mkInvariant {
  inv_keys : keysAgree (vehicles (store (hub w)));
  inv_fresh : forall k, nextHandle (hub w) <= k ->
                subscribers (hub w) !! k = None /\ views w !! k = None;
  inv_views : forall k v, views w !! k = Some v ->
                numberedFrom (snapshotSequenceNumber v) (received v);
  inv_subs : forall k sub, subscribers (hub w) !! k = Some sub ->
               exists v, views w !! k = Some v /\ inSync (store (hub w)) v (queue sub)
}.

(** ** Sample run *)

Definition rawFor (id : string) (label : string) (count : Z) : RawUpdate :=
  mkRaw (Some id) (Some "534") None None None None (Some label) None (Some count) (Some 40%Z).

Definition sampleOps : list Op :=
  [ OpIngest (rawFor "b1" "On Time" 10);
    OpSubscribe;
    OpIngest (rawFor "b2" "Delayed" 45);
    OpIngest (rawFor "b3" "Unknown" 3);
    OpIngest (rawFor "b1" "Delayed" 12);
    OpTake 0%nat;
    OpRemove "b2";
    OpTake 0%nat;
    OpTake 0%nat ].

(** What the subscriber of [sampleOps] holds at the end of the run, with a
    queue bound of three events. *)
Definition sampleVehicle (id : string) (st : Status) (count : Z) : Vehicle :=
  mkVehicle id (Some "534") None None None None (Some st) None (Some count) (Some 40%Z).

Definition sampleView : View :=
  mkView 1 [sampleVehicle "b1" OnTime 10]
         [ mkDiff 2 (Upsert (sampleVehicle "b2" Delayed 40));
           mkDiff 3 (Upsert (sampleVehicle "b1" Delayed 12));
           mkDiff 4 (Remove "b2") ].

Definition sampleSubscriber : Subscriber := mkSubscriber (Some 4) [].

End Engine.

(* ===================================================================== *)
(** * Facts about the React component *)
(* ===================================================================== *)

Module AppFacts.
Import App.

(** ** The update handler, element by element *)

Lemma sameId_true (bus updatedBus : Bus) :
  sameId bus updatedBus = true <-> _id bus = _id updatedBus.
Proof. unfold sameId. apply bool_decide_eq_true. Qed.

Lemma sameId_false (bus updatedBus : Bus) :
  sameId bus updatedBus = false <-> _id bus <> _id updatedBus.
Proof. unfold sameId. apply bool_decide_eq_false. Qed.

Lemma busLocationUpdate_cons (u b : Bus) (bs : list Bus) :
  busLocationUpdate u (b :: bs) =
  (if sameId b u then u else b) :: busLocationUpdate u bs.
Proof. reflexivity. Qed.

Lemma busLocationUpdate_length (u : Bus) (bs : list Bus) :
  length (busLocationUpdate u bs) = length bs.
Proof. unfold busLocationUpdate. apply length_map. Qed.

Lemma busLocationUpdate_lookup (u : Bus) (bs : list Bus) (i : nat) :
  busLocationUpdate u bs !! i =
  (fun b => if sameId b u then u else b) <$> (bs !! i).
Proof.
  revert i. induction bs as [|b bs IH]; intros [|i]; try reflexivity.
  rewrite busLocationUpdate_cons. simpl. apply IH.
Qed.

Lemma busLocationUpdate_ids (u : Bus) (bs : list Bus) :
  map _id (busLocationUpdate u bs) = map _id bs.
Proof.
  induction bs as [|b bs IH]; [reflexivity|].
  rewrite busLocationUpdate_cons. simpl. rewrite IH. f_equal.
  destruct (sameId b u) eqn:E; [|reflexivity].
  symmetry. now apply sameId_true.
Qed.

Lemma busLocationUpdate_no_match (u : Bus) (bs : list Bus) :
  (forall b, In b bs -> _id b <> _id u) -> busLocationUpdate u bs = bs.
Proof.
  induction bs as [|b bs IH]; intros H; [reflexivity|].
  rewrite busLocationUpdate_cons.
  assert (E : sameId b u = false) by (apply sameId_false, H; now left).
  rewrite E. f_equal. apply IH. intros b' Hb'. apply H. now right.
Qed.

Lemma busLocationUpdate_In (u : Bus) (bs : list Bus) (b' : Bus) :
  In b' (busLocationUpdate u bs) ->
  (b' = u /\ exists b, In b bs /\ _id b = _id u) \/ (In b' bs /\ _id b' <> _id u).
Proof.
  induction bs as [|b bs IH]; [intros []|].
  rewrite busLocationUpdate_cons. intros [Hb|Hb].
  - destruct (sameId b u) eqn:E.
    + left. split; [now symmetry|]. exists b. split; [now left|]. now apply sameId_true.
    + right. subst b'. split; [now left|]. now apply sameId_false.
  - destruct (IH Hb) as [[-> (b0 & Hin & Hid)]|[Hin Hid]].
    + left. split; [reflexivity|]. exists b0. split; [now right|assumption].
    + right. split; [now right|assumption].
Qed.

Lemma busLocationUpdate_lookup_other (u : Bus) (bs : list Bus) (i : nat) (b : Bus) :
  bs !! i = Some b -> _id b <> _id u -> busLocationUpdate u bs !! i = Some b.
Proof.
  intros Hi Hid. rewrite busLocationUpdate_lookup, Hi. simpl.
  apply sameId_false in Hid. now rewrite Hid.
Qed.

Lemma busLocationUpdate_lookup_match (u : Bus) (bs : list Bus) (i : nat) (b : Bus) :
  bs !! i = Some b -> _id b = _id u -> busLocationUpdate u bs !! i = Some u.
Proof.
  intros Hi Hid. rewrite busLocationUpdate_lookup, Hi. simpl.
  apply sameId_true in Hid. now rewrite Hid.
Qed.

(** C8: the handler maps over the list, so no vehicle is ever deleted: the
    list keeps its length and its identifiers in order, a bus with another
    identifier is untouched, and a bus with the update's identifier becomes
    the received record. *)
Theorem busLocationUpdate_never_deletes (buses : list Bus) (updatedBus : Bus) :
  length (busLocationUpdate updatedBus buses) = length buses /\
  map _id (busLocationUpdate updatedBus buses) = map _id buses /\
  (forall i bus, buses !! i = Some bus -> _id bus <> _id updatedBus ->
     busLocationUpdate updatedBus buses !! i = Some bus) /\
  (forall i bus, buses !! i = Some bus -> _id bus = _id updatedBus ->
     busLocationUpdate updatedBus buses !! i = Some updatedBus).
Proof.
  split; [apply busLocationUpdate_length|].
  split; [apply busLocationUpdate_ids|].
  split; intros i bus Hi Hid.
  - now apply busLocationUpdate_lookup_other.
  - now apply busLocationUpdate_lookup_match with bus.
Qed.

(** ** Updates the specification would reject or repair *)

Lemma hasIdentifier_not_missing (b u : Bus) :
  hasIdentifier b -> missingIdentifier u -> _id b <> _id u.
Proof.
  intros (s & Hs & Hne) [Hu|Hu] E; rewrite Hs, Hu in E; [discriminate|].
  injection E as ->. now apply Hne.
Qed.

(** C3 (as the handler behaves): an update whose status is present but
    outside the enumeration is not rejected and no error is produced.  The
    list is unchanged when no bus carries the update's identifier; a bus
    that carries it is replaced by the update as received, so a status
    outside the enumeration is stored. *)
Theorem unrecognized_status_is_stored (buses : list Bus) (updatedBus : Bus) :
  unrecognizedStatus updatedBus ->
  ((forall b, In b buses -> _id b <> _id updatedBus) ->
     busLocationUpdate updatedBus buses = buses) /\
  (forall i bus, buses !! i = Some bus -> _id bus = _id updatedBus ->
     exists stored, busLocationUpdate updatedBus buses !! i = Some stored /\
       status stored = status updatedBus /\ ~ enumStatus stored).
Proof.
  intros (s & Hs & Hon & Hdel). split; [apply busLocationUpdate_no_match|].
  intros i bus Hi Hid. exists updatedBus.
  split; [now apply busLocationUpdate_lookup_match with bus|].
  split; [reflexivity|].
  intros [H|H]; rewrite Hs in H; injection H as ->; [now apply Hon | now apply Hdel].
Qed.

Lemma unrecognized_status_is_stored_witness :
  unrecognizedStatus bus534_unknown /\
  exists stored,
    busLocationUpdate bus534_unknown [bus534; bus764] !! 0%nat = Some stored /\
    status stored = status bus534_unknown /\ ~ enumStatus stored.
Proof.
  assert (H : unrecognizedStatus bus534_unknown).
  { exists "Unknown". repeat split; discriminate. }
  split; [exact H|].
  apply (proj2 (unrecognized_status_is_stored [bus534; bus764] bus534_unknown H) 0%nat bus534);
    reflexivity.
Defined.

(** C3 as stated fails: [bus534] is on time, the update reports the status
    "Unknown" for it, and the stored list changes. *)
Lemma unknown_status_changes_the_list :
  unrecognizedStatus bus534_unknown /\
  busLocationUpdate bus534_unknown [bus534; bus764] = [bus534_unknown; bus764] /\
  busLocationUpdate bus534_unknown [bus534; bus764] <> [bus534; bus764].
Proof.
  split; [exists "Unknown"; repeat split; discriminate|].
  split; [reflexivity|]. vm_compute. discriminate.
Qed.

Lemma clamp_in_range (count cap : Z) :
  (0 <= count <= cap)%Z -> clamp count cap = count.
Proof. unfold clamp. lia. Qed.

(** C4 (as the handler behaves): an update that carries both a passenger
    count and a capacity is applied, not rejected, to the bus with its
    identifier; the stored record is the received record itself, so the
    stored count is the received count.  It agrees with
    [max(0, min(count, capacity))] exactly when clamping would change
    nothing, in particular whenever [0 <= count <= capacity]. *)
Theorem passenger_count_stored_as_received
    (buses : list Bus) (updatedBus : Bus) (count cap : Z) (i : nat) (bus : Bus) :
  currentPassengers updatedBus = Some count ->
  capacity updatedBus = Some cap ->
  buses !! i = Some bus -> _id bus = _id updatedBus ->
  exists stored,
    busLocationUpdate updatedBus buses !! i = Some stored /\
    stored = updatedBus /\
    currentPassengers stored = Some count /\
    capacity stored = Some cap /\
    (currentPassengers stored = Some (clamp count cap) <-> clamp count cap = count) /\
    ((0 <= count <= cap)%Z -> currentPassengers stored = Some (clamp count cap)).
Proof.
  intros Hc Hk Hi Hid. exists updatedBus.
  split; [now apply busLocationUpdate_lookup_match with bus|].
  split; [reflexivity|]. split; [assumption|]. split; [assumption|].
  split.
  - rewrite Hc. split; [intros E; injection E as E; now symmetry|intros ->; reflexivity].
  - intros Hr. rewrite Hc, clamp_in_range by assumption. reflexivity.
Qed.

Lemma passenger_count_stored_as_received_witness :
  exists stored,
    busLocationUpdate bus534_overfull [bus534; bus764] !! 0%nat = Some stored /\
    stored = bus534_overfull /\
    currentPassengers stored = Some 45%Z /\
    capacity stored = Some 40%Z /\
    (currentPassengers stored = Some (clamp 45 40) <-> clamp 45 40 = 45%Z) /\
    ((0 <= 45 <= 40)%Z -> currentPassengers stored = Some (clamp 45 40)).
Proof.
  apply (passenger_count_stored_as_received
           [bus534; bus764] bus534_overfull 45 40 0 bus534); reflexivity.
Defined.

(** C4 as stated fails: with capacity 40 and a reported count of 45 the
    stored count is 45, not the clamped 40. *)
Lemma overfull_count_is_not_clamped :
  capacity bus534_overfull = Some 40%Z /\
  currentPassengers bus534_overfull = Some (40 + 5)%Z /\
  clamp (40 + 5) 40 = 40%Z /\
  busLocationUpdate bus534_overfull [bus534] = [bus534_overfull] /\
  (currentPassengers <$> busLocationUpdate bus534_overfull [bus534])
    = [Some 45%Z] /\
  (currentPassengers <$> busLocationUpdate bus534_overfull [bus534])
    <> [Some (clamp (40 + 5) 40)] /\
  (passengerLabel <$> busLocationUpdate bus534_overfull [bus534]) = ["45/40"].
Proof.
  repeat split; try reflexivity; try (vm_compute; reflexivity).
  vm_compute. discriminate.
Qed.

(** C5 (as the handler behaves): an update whose identifier no listed bus
    carries registers nothing.  The list is unchanged and still holds no
    bus with that identifier; buses enter the list only with the fetched
    snapshot. *)
Theorem unknown_identifier_registers_nothing (buses : list Bus) (updatedBus : Bus) :
  validUpdate updatedBus ->
  (forall b, In b buses -> _id b <> _id updatedBus) ->
  busLocationUpdate updatedBus buses = buses /\
  (forall b, In b (busLocationUpdate updatedBus buses) -> _id b <> _id updatedBus) /\
  ~ In updatedBus (busLocationUpdate updatedBus buses).
Proof.
  intros _ Hfresh.
  rewrite (busLocationUpdate_no_match updatedBus buses Hfresh).
  split; [reflexivity|]. split; [assumption|].
  intros Hin. now apply (Hfresh _ Hin).
Qed.

Lemma bus764_valid : validUpdate bus764.
Proof.
  split; [exists "b2"; split; [reflexivity|discriminate]|].
  right. right. reflexivity.
Defined.

Lemma unknown_identifier_registers_nothing_witness :
  validUpdate bus764 /\
  busLocationUpdate bus764 [bus534] = [bus534] /\
  (forall b, In b (busLocationUpdate bus764 [bus534]) -> _id b <> _id bus764) /\
  ~ In bus764 (busLocationUpdate bus764 [bus534]).
Proof.
  split; [exact bus764_valid|].
  apply (unknown_identifier_registers_nothing [bus534] bus764 bus764_valid).
  intros b [<-|[]]. discriminate.
Defined.

(** C5 as stated fails: a valid update for the new identifier "b2" reaches
    an empty list and a list holding only "b1"; afterwards neither holds a
    bus with identifier "b2". *)
Lemma new_identifier_is_not_registered :
  validUpdate bus764 /\
  busLocationUpdate bus764 [] = [] /\
  busLocationUpdate bus764 [bus534] = [bus534] /\
  ~ (exists b, In b (busLocationUpdate bus764 [bus534]) /\ _id b = _id bus764).
Proof.
  split; [exact bus764_valid|]. split; [reflexivity|]. split; [reflexivity|].
  intros (b & [<-|[]] & E). discriminate.
Qed.

(** C6 (as the handler behaves): an update whose identifier is missing or
    empty meets no identifier check and produces no error.  It leaves the
    list unchanged whenever every listed bus has a present, non-empty
    identifier. *)
Theorem missing_identifier_leaves_list (buses : list Bus) (updatedBus : Bus) :
  missingIdentifier updatedBus ->
  Forall hasIdentifier buses ->
  busLocationUpdate updatedBus buses = buses.
Proof.
  intros Hmiss Hall. apply busLocationUpdate_no_match.
  intros b Hb. apply hasIdentifier_not_missing; [|assumption].
  rewrite Forall_forall in Hall. apply Hall. now apply list_elem_of_In.
Qed.

Lemma missing_identifier_leaves_list_witness :
  busLocationUpdate anonymousUpdate [bus534; bus764] = [bus534; bus764].
Proof.
  apply (missing_identifier_leaves_list [bus534; bus764] anonymousUpdate).
  - left. reflexivity.
  - repeat constructor.
    + exists "b1". split; [reflexivity|discriminate].
    + exists "b2". split; [reflexivity|discriminate].
Defined.

(** C6 as stated fails: when a listed document lacks [_id] as well, an
    update without identifier replaces it. *)
Lemma missing_identifier_can_change_the_list :
  missingIdentifier anonymousUpdate /\
  busLocationUpdate anonymousUpdate [anonymousBus; bus534] = [anonymousUpdate; bus534] /\
  busLocationUpdate anonymousUpdate [anonymousBus; bus534] <> [anonymousBus; bus534].
Proof.
  split; [left; reflexivity|]. split; [reflexivity|]. vm_compute. discriminate.
Qed.

(** ** Repeated updates *)

Lemma busLocationUpdate_idempotent (u : Bus) (bs : list Bus) :
  busLocationUpdate u (busLocationUpdate u bs) = busLocationUpdate u bs.
Proof.
  induction bs as [|b bs IH]; [reflexivity|].
  rewrite !busLocationUpdate_cons, IH. f_equal.
  destruct (sameId b u) eqn:E; [|now rewrite E].
  assert (Hu : sameId u u = true) by now apply sameId_true.
  now rewrite Hu.
Qed.

(** The same update handled twice makes the handler run twice, once per
    event and whatever the values, and the list after the second run is
    the list after the first; so is the whole component state. *)
Lemma same_update_twice (s : AppState) (updatedBus : Bus) :
  onUpdates [updatedBus; updatedBus] (buses s) =
    [busLocationUpdate updatedBus (buses s); busLocationUpdate updatedBus (buses s)] /\
  busLocationUpdate updatedBus (busLocationUpdate updatedBus (buses s)) =
    busLocationUpdate updatedBus (buses s) /\
  run [BusLocationUpdate updatedBus; BusLocationUpdate updatedBus] s =
    run [BusLocationUpdate updatedBus] s.
Proof.
  split; [|split].
  - simpl. now rewrite busLocationUpdate_idempotent.
  - apply busLocationUpdate_idempotent.
  - unfold run. simpl. now rewrite busLocationUpdate_idempotent.
Qed.

(** The page joins by opening the socket and fetching the list; the list
    that the fetch returns replaces whatever the updates received before it
    had produced. *)
Lemma update_before_fetch_is_overwritten (s : AppState) (updatedBus : Bus) (data : list Bus) :
  buses (run [BusLocationUpdate updatedBus; FetchOk data] s) = data.
Proof. reflexivity. Qed.

(** ** Live Stats *)

Lemma hasStatus_true (label : string) (b : Bus) :
  hasStatus label b = true <-> status b = Some label.
Proof. unfold hasStatus. apply bool_decide_eq_true. Qed.

Lemma hasStatus_false (label : string) (b : Bus) :
  hasStatus label b = false <-> status b <> Some label.
Proof. unfold hasStatus. apply bool_decide_eq_false. Qed.

Lemma hasStatus_exclusive (b : Bus) :
  hasStatus "On Time" b = true -> hasStatus "Delayed" b = false.
Proof.
  rewrite hasStatus_true, hasStatus_false. intros -> E. discriminate.
Qed.

Lemma stats_cons (b : Bus) (bs : list Bus) :
  onTimeCount (b :: bs) + delayedCount (b :: bs) =
  (if hasStatus "On Time" b || hasStatus "Delayed" b then 1 else 0)
  + (onTimeCount bs + delayedCount bs).
Proof.
  unfold onTimeCount, delayedCount. simpl.
  destruct (hasStatus "On Time" b) eqn:E1.
  - rewrite (hasStatus_exclusive b E1). simpl. lia.
  - destruct (hasStatus "Delayed" b); simpl; lia.
Qed.

Lemma stats_le (bs : list Bus) :
  onTimeCount bs + delayedCount bs <= activeBuses bs.
Proof.
  induction bs as [|b bs IH]; [unfold onTimeCount, delayedCount; simpl; lia|].
  rewrite stats_cons. unfold activeBuses in *. simpl.
  destruct (hasStatus "On Time" b || hasStatus "Delayed" b); lia.
Qed.

Lemma enumStatus_counted (b : Bus) :
  enumStatus b <-> hasStatus "On Time" b || hasStatus "Delayed" b = true.
Proof.
  unfold enumStatus. rewrite orb_true_iff, !hasStatus_true. reflexivity.
Qed.

(** C9: when every bus is 'On Time' or 'Delayed' the two counters add up to
    the Active Buses counter; as soon as one bus has another status (or
    none) they add up to strictly less. *)
Theorem live_stats_counters (buses : list Bus) :
  (Forall enumStatus buses ->
     onTimeCount buses + delayedCount buses = activeBuses buses) /\
  (Exists (fun b => ~ enumStatus b) buses ->
     onTimeCount buses + delayedCount buses < activeBuses buses).
Proof.
  split.
  - induction 1 as [|b bs Hb _ IH]; [reflexivity|].
    rewrite stats_cons. apply enumStatus_counted in Hb. rewrite Hb.
    unfold activeBuses in *. simpl. lia.
  - induction 1 as [b bs Hb|b bs _ IH]; rewrite stats_cons.
    + rewrite enumStatus_counted in Hb. apply not_true_is_false in Hb. rewrite Hb.
      pose proof (stats_le bs). unfold activeBuses in *. simpl. lia.
    + pose proof (stats_le bs). unfold activeBuses in *. simpl.
      destruct (hasStatus "On Time" b || hasStatus "Delayed" b); lia.
Qed.

Example live_stats_sample :
  activeBuses [bus534; bus764; bus534_unknown] = 3 /\
  onTimeCount [bus534; bus764; bus534_unknown] = 1 /\
  delayedCount [bus534; bus764; bus534_unknown] = 1 /\
  onTimeCount [bus534; bus764] + delayedCount [bus534; bus764] = activeBuses [bus534; bus764].
Proof. repeat split. Qed.

(** ** Search and filter *)

Lemma filter_sublist_of {A : Type} (p : A -> bool) (l : list A) :
  sublist (List.filter p l) l.
Proof.
  induction l as [|a l IH]; simpl; [constructor|].
  destruct (p a); now constructor.
Qed.

Lemma matchesFilter_no_criteria (bus : Bus) : matchesFilter "" "" bus = true.
Proof. reflexivity. Qed.

Example filteredBuses_sample :
  filteredBuses "" "ITO" [bus534; bus764] = [bus534] /\
  filteredBuses "764" "" [bus534; bus764] = [bus764] /\
  filteredBuses "764" "ito" [bus534; bus764] = [].
Proof. repeat split. Qed.

(** C10: the filtered list is a subsequence of the full list, and with an
    empty search query and no selected route it is the full list. *)
Theorem filteredBuses_subsequence (selectedRoute searchQuery : string) (buses : list Bus) :
  sublist (filteredBuses selectedRoute searchQuery buses) buses /\
  filteredBuses "" "" buses = buses.
Proof.
  split; [apply filter_sublist_of|].
  unfold filteredBuses. induction buses as [|b bs IH]; [reflexivity|].
  simpl. now rewrite IH.
Qed.

End AppFacts.

(* ===================================================================== *)
(** * Facts about the engine of the specification *)
(* ===================================================================== *)

Module EngineFacts.
Import Engine.

(** ** The store *)

Lemma merge_identifier (patch : Vehicle) (old : option Vehicle) :
  identifier (merge patch old) = identifier patch.
Proof. destruct old; reflexivity. Qed.

Lemma apply_sequenceNumber (m : Mutation) (s : Store) :
  sequenceNumber (apply m s).1 = S (sequenceNumber s).
Proof. destruct m; reflexivity. Qed.

Lemma apply_seqNo (m : Mutation) (s : Store) :
  seqNo (apply m s).2 = S (sequenceNumber s).
Proof. destruct m; reflexivity. Qed.

Lemma apply_keysAgree (m : Mutation) (s : Store) :
  keysAgree (vehicles s) -> keysAgree (vehicles (apply m s).1).
Proof.
  intros H k v. destruct m as [patch|id]; simpl.
  - rewrite lookup_insert_Some. intros [[<- <-]|[_ Hk]].
    + apply merge_identifier.
    + now apply H.
  - rewrite lookup_delete_Some. intros [_ Hk]. now apply H.
Qed.

Lemma apply_applyDiff (m : Mutation) (s : Store) :
  applyDiff (vehicles s) (apply m s).2 = vehicles (apply m s).1.
Proof.
  destruct m as [patch|id]; unfold applyDiff; simpl; [|reflexivity].
  now rewrite merge_identifier.
Qed.

Lemma fromSnapshot_listing (m : gmap string Vehicle) :
  keysAgree m -> fromSnapshot (listing m) = m.
Proof.
  intros H. unfold fromSnapshot, listing.
  rewrite <- list_fmap_compose.
  rewrite <- (list_to_map_to_list m) at 2. f_equal.
  rewrite <- (list_fmap_id (map_to_list m)) at 2.
  apply Forall_fmap_ext, Forall_forall. intros [k v] Hin.
  apply elem_of_map_to_list in Hin. simpl. f_equal. now apply H.
Qed.

(** ** Numbered event streams *)

Lemma numberedFrom_nil (n : nat) : numberedFrom n [].
Proof. reflexivity. Qed.

Lemma numberedFrom_snoc (n : nat) (ds : list DiffEvent) (d : DiffEvent) :
  numberedFrom n ds -> seqNo d = S (n + length ds) -> numberedFrom n (ds ++ [d]).
Proof.
  unfold numberedFrom. intros Hds Hd.
  rewrite fmap_app, length_app, seq_app, Hds. simpl. now rewrite Hd.
Qed.

Lemma numberedFrom_prefix (n : nat) (ds1 ds2 : list DiffEvent) :
  numberedFrom n (ds1 ++ ds2) -> numberedFrom n ds1.
Proof.
  unfold numberedFrom. rewrite fmap_app, length_app, seq_app. intros H.
  apply app_inj_1 in H; [apply H|].
  now rewrite length_fmap, length_seq.
Qed.

Lemma replay_snoc (ds : list DiffEvent) (d : DiffEvent) (m : gmap string Vehicle) :
  replay (ds ++ [d]) m = applyDiff (replay ds m) d.
Proof. unfold replay. now rewrite fold_left_app. Qed.

(** ** One step of the engine keeps the invariant *)

Lemma invariant_initial : invariant initialWorld.
Proof.
  split; simpl.
  - intros k v Hk. now rewrite lookup_empty in Hk.
  - intros k _. now rewrite !lookup_empty.
  - intros k v Hk. now rewrite lookup_empty in Hk.
  - intros k sub Hk. now rewrite lookup_empty in Hk.
Qed.

Lemma enqueue_Some (bound : nat) (d : DiffEvent) (sub sub' : Subscriber) :
  enqueue bound d sub = Some sub' -> queue sub' = queue sub ++ [d].
Proof.
  unfold enqueue. destruct (decide _); [|discriminate].
  intros E. injection E as <-. reflexivity.
Qed.

Lemma inSync_publish (m : Mutation) (s : Store) (v : View) (pending : list DiffEvent) :
  inSync s v pending -> inSync (apply m s).1 v (pending ++ [(apply m s).2]).
Proof.
  intros (Hnum & Hlen & Hrep). unfold inSync.
  rewrite app_assoc. split; [|split].
  - apply numberedFrom_snoc; [assumption|]. rewrite apply_seqNo. lia.
  - rewrite length_app, apply_sequenceNumber. simpl. lia.
  - rewrite replay_snoc, Hrep. apply apply_applyDiff.
Qed.

Lemma invariant_applyAndPublish (bound : nat) (m : Mutation) (w : World) :
  invariant w -> invariant (applyAndPublish bound m w).
Proof.
  intros [Hkeys Hfresh Hviews Hsubs]. unfold applyAndPublish.
  pose proof (apply_keysAgree m (store (hub w)) Hkeys) as Hkeys'.
  pose proof (fun v p => inSync_publish m (store (hub w)) v p) as Hsync.
  destruct (apply m (store (hub w))) as [s' d] eqn:E. simpl in *.
  split; simpl.
  - assumption.
  - intros k Hk. destruct (Hfresh k Hk) as [Hs Hv]. split; [|assumption].
    unfold publish. now rewrite lookup_omap, Hs.
  - assumption.
  - intros k sub'. unfold publish. rewrite lookup_omap_Some.
    intros (sub & Henq & Hsub).
    destruct (Hsubs k sub Hsub) as (v & Hv & Hin).
    exists v. split; [assumption|].
    rewrite (enqueue_Some _ _ _ _ Henq). now apply Hsync.
Qed.

Lemma invariant_subscribe (w : World) : invariant w -> invariant (subscribe w).
Proof.
  intros [Hkeys Hfresh Hviews Hsubs]. unfold subscribe.
  split; simpl.
  - assumption.
  - intros k Hk. destruct (Hfresh k) as [Hs Hv]; [lia|].
    rewrite !lookup_insert_ne by lia. now split.
  - intros k v. rewrite lookup_insert_Some. intros [[_ <-]|[_ Hk]].
    + apply numberedFrom_nil.
    + now apply Hviews with k.
  - intros k sub. rewrite lookup_insert_Some. intros [[<- <-]|[Hne Hk]].
    + eexists. split; [apply lookup_insert_eq|].
      unfold inSync. simpl. split; [apply numberedFrom_nil|]. split; [lia|].
      now apply fromSnapshot_listing.
    + destruct (Hsubs k sub Hk) as (v & Hv & Hin).
      exists v. split; [|assumption]. now rewrite lookup_insert_ne.
Qed.

Lemma invariant_unsubscribe (k : nat) (w : World) :
  invariant w -> invariant (unsubscribe k w).
Proof.
  intros [Hkeys Hfresh Hviews Hsubs]. unfold unsubscribe.
  split; simpl; try assumption.
  - intros j Hj. destruct (Hfresh j Hj) as [Hs Hv]. split; [|assumption].
    destruct (decide (k = j)) as [->|Hne];
      [apply lookup_delete_eq | now rewrite lookup_delete_ne].
  - intros j sub. rewrite lookup_delete_Some. intros [_ Hj]. now apply Hsubs.
Qed.

Lemma invariant_take (k : nat) (w : World) : invariant w -> invariant (take k w).
Proof.
  intros Hinv. unfold take.
  destruct (subscribers (hub w) !! k) as [sub|] eqn:Hsub; [|assumption].
  destruct (queue sub) as [|d rest] eqn:Hq; [assumption|].
  destruct Hinv as [Hkeys Hfresh Hviews Hsubs].
  destruct (Hsubs k sub Hsub) as (v & Hv & Hin). rewrite Hq in Hin.
  assert (Hin' : inSync (store (hub w))
                   (mkView (snapshotSequenceNumber v) (snapshot v) (received v ++ [d])) rest).
  { unfold inSync in *. simpl. now rewrite <- !app_assoc. }
  split; simpl.
  - assumption.
  - intros j Hj. destruct (Hfresh j Hj) as [Hs Hvj].
    assert (k <> j) by (intros ->; rewrite Hs in Hsub; discriminate).
    rewrite lookup_insert_ne, lookup_alter_ne by assumption. now split.
  - intros j vj. destruct (decide (k = j)) as [<-|Hne].
    + rewrite lookup_alter_eq, Hv. simpl. intros E. injection E as <-. simpl.
      destruct Hin' as (Hnum & _). simpl in Hnum.
      now apply numberedFrom_prefix with rest.
    + rewrite lookup_alter_ne by assumption. now apply Hviews.
  - intros j subj. rewrite lookup_insert_Some. intros [[<- <-]|[Hne Hj]].
    + eexists. split; [rewrite lookup_alter_eq, Hv; reflexivity|]. exact Hin'.
    + destruct (Hsubs j subj Hj) as (vj & Hvj & Hinj).
      exists vj. split; [|assumption]. now rewrite lookup_alter_ne.
Qed.

Lemma invariant_stepOp (bound : nat) (op : Op) (w : World) :
  invariant w -> invariant (stepOp bound op w).
Proof.
  intros H. destruct op as [raw|id| |k|k]; simpl.
  - destruct (validate raw) as [e|[patch anomaly]]; [assumption|].
    now apply invariant_applyAndPublish.
  - now apply invariant_applyAndPublish.
  - now apply invariant_subscribe.
  - now apply invariant_unsubscribe.
  - now apply invariant_take.
Qed.

Lemma invariant_runOps (bound : nat) (ops : list Op) (w : World) :
  invariant w -> invariant (runOps bound ops w).
Proof.
  revert w. induction ops as [|op ops IH]; intros w H; [assumption|].
  apply IH. now apply invariant_stepOp.
Qed.

(** ** The same update ingested twice *)






Example same_update_ingested_twice :
  appliedDiffs (ingestAll [rawFor "b1" "On Time" 10; rawFor "b1" "On Time" 10] emptyStore).2
    = [ mkDiff 1 (Upsert (sampleVehicle "b1" OnTime 10));
        mkDiff 2 (Upsert (sampleVehicle "b1" OnTime 10)) ] /\
  getAll (ingestAll [rawFor "b1" "On Time" 10; rawFor "b1" "On Time" 10] emptyStore).1
    = getAll (ingestAll [rawFor "b1" "On Time" 10] emptyStore).1.
Proof. split; vm_compute; reflexivity. Qed.

(** ** The join of a subscriber *)

(** A join hands out the listing of the store with its sequence number
    and registers the subscriber with an empty queue, in one step. *)
Lemma subscribe_snapshot (w : World) :
  let k := nextHandle (hub w) in
  views (subscribe w) !! k =
    Some (mkView (sequenceNumber (store (hub w))) (getAll (store (hub w))) []) /\
  subscribers (hub (subscribe w)) !! k = Some (mkSubscriber None []) /\
  store (hub (subscribe w)) = store (hub w).
Proof.
  simpl. split; [apply lookup_insert_eq|]. split; [apply lookup_insert_eq|reflexivity].
Qed.

(** C1: along every interleaving of ingestions, removals, joins, leaves
    and deliveries, a subscriber that joined with a snapshot at sequence
    number [N] has received events numbered [N+1], [N+2], ... in that
    order, none lost and none twice.  While it is registered, the events
    it has received followed by those still queued for it reach the
    sequence number of the store, and replayed onto its snapshot they give
    the vehicles of the store; once its queue is drained the received
    stream alone does. *)
Theorem subscriber_stream_continues_snapshot
    (bound : nat) (ops : list Op) (k : nat) (v : View) :
  let w := runOps bound ops initialWorld in
  views w !! k = Some v ->
  seqNo <$> received v = seq (S (snapshotSequenceNumber v)) (length (received v)) /\
  (forall sub, subscribers (hub w) !! k = Some sub ->
     seqNo <$> (received v ++ queue sub) =
       seq (S (snapshotSequenceNumber v)) (length (received v ++ queue sub)) /\
     snapshotSequenceNumber v + length (received v ++ queue sub) =
       sequenceNumber (store (hub w)) /\
     replay (received v ++ queue sub) (fromSnapshot (snapshot v)) =
       vehicles (store (hub w)) /\
     (queue sub = [] ->
        replay (received v) (fromSnapshot (snapshot v)) = vehicles (store (hub w)) /\
        listing (replay (received v) (fromSnapshot (snapshot v))) = getAll (store (hub w)))).
Proof.
  intros w Hv.
  destruct (invariant_runOps bound ops initialWorld invariant_initial)
    as [_ _ Hviews Hsubs]. fold w in Hviews, Hsubs.
  split; [exact (Hviews k v Hv)|].
  intros sub Hsub. destruct (Hsubs k sub Hsub) as (v' & Hv' & Hnum & Hlen & Hrep).
  rewrite Hv in Hv'. injection Hv' as <-.
  split; [exact Hnum|]. split; [exact Hlen|]. split; [exact Hrep|].
  intros Hq. rewrite Hq, app_nil_r in Hrep. unfold getAll. now rewrite Hrep.
Qed.

Lemma sampleOps_view :
  views (runOps 3 sampleOps initialWorld) !! 0%nat = Some sampleView.
Proof. vm_compute. reflexivity. Qed.

Lemma sampleOps_subscriber :
  subscribers (hub (runOps 3 sampleOps initialWorld)) !! 0%nat = Some sampleSubscriber.
Proof. vm_compute. reflexivity. Qed.

Lemma subscriber_stream_continues_snapshot_witness :
  seqNo <$> received sampleView = [2; 3; 4] /\
  replay (received sampleView) (fromSnapshot (snapshot sampleView)) =
    vehicles (store (hub (runOps 3 sampleOps initialWorld))) /\
  listing (replay (received sampleView) (fromSnapshot (snapshot sampleView))) =
    getAll (store (hub (runOps 3 sampleOps initialWorld))).
Proof.
  pose proof (subscriber_stream_continues_snapshot 3 sampleOps 0 sampleView) as H.
  cbv zeta in H. specialize (H sampleOps_view).
  destruct H as [Hnum Hreg].
  specialize (Hreg sampleSubscriber sampleOps_subscriber).
  destruct Hreg as (_ & _ & _ & Hdrained).
  destruct (Hdrained eq_refl) as [Hrep Hlist].
  split; [exact Hnum|]. split; [exact Hrep|exact Hlist].
Defined.

(** ** The sequence number *)

Lemma applyAll_cons (m : Mutation) (ms : list Mutation) (s : Store) :
  applyAll (m :: ms) s =
  ((applyAll ms (Engine.apply m s).1).1,
   (Engine.apply m s).2 :: (applyAll ms (Engine.apply m s).1).2).
Proof.
  simpl. destruct (Engine.apply m s) as [s1 d]. simpl.
  now destruct (applyAll ms s1).
Qed.

Lemma applyAll_numbering (ms : list Mutation) (s : Store) :
  sequenceNumber (applyAll ms s).1 = sequenceNumber s + length ms /\
  seqNo <$> (applyAll ms s).2 = seq (S (sequenceNumber s)) (length ms).
Proof.
  revert s. induction ms as [|m ms IH]; intros s.
  - simpl. split; [lia|reflexivity].
  - rewrite applyAll_cons. cbn [fst snd length].
    destruct (IH (Engine.apply m s).1) as [IH1 IH2].
    rewrite apply_sequenceNumber in IH1, IH2.
    split; [lia|].
    rewrite fmap_cons, IH2, apply_seqNo. reflexivity.
Qed.

Lemma ingest_rejected (raw : RawUpdate) (s : Store) (e : UpdateError) :
  (ingest raw s).2 = Rejected e -> (ingest raw s).1 = s.
Proof.
  unfold ingest. destruct (validate raw) as [e'|[patch anomaly]]; [reflexivity|].
  destruct (Engine.apply (Merge patch) s). discriminate.
Qed.

Lemma ingest_applied (raw : RawUpdate) (s : Store) (d : DiffEvent) (anomaly : bool) :
  (ingest raw s).2 = Applied d anomaly ->
  sequenceNumber (ingest raw s).1 = S (sequenceNumber s) /\
  seqNo d = S (sequenceNumber s).
Proof.
  unfold ingest. destruct (validate raw) as [e'|[patch a]]; [discriminate|].
  pose proof (apply_sequenceNumber (Merge patch) s) as Hs.
  pose proof (apply_seqNo (Merge patch) s) as Hd.
  destruct (Engine.apply (Merge patch) s) as [s1 d1]. simpl in *.
  intros E. injection E as <- <-. now split.
Qed.

Lemma appliedDiffs_rejected (e : UpdateError) (os : list Outcome) :
  appliedDiffs (Rejected e :: os) = appliedDiffs os.
Proof. reflexivity. Qed.

Lemma appliedDiffs_applied (d : DiffEvent) (anomaly : bool) (os : list Outcome) :
  appliedDiffs (Applied d anomaly :: os) = d :: appliedDiffs os.
Proof. reflexivity. Qed.

Lemma ingestAll_cons (raw : RawUpdate) (raws : list RawUpdate) (s : Store) :
  ingestAll (raw :: raws) s =
  ((ingestAll raws (ingest raw s).1).1,
   (ingest raw s).2 :: (ingestAll raws (ingest raw s).1).2).
Proof.
  simpl. destruct (ingest raw s) as [s1 o]. simpl.
  now destruct (ingestAll raws s1).
Qed.

Lemma ingestAll_numbering (raws : list RawUpdate) (s : Store) :
  sequenceNumber (ingestAll raws s).1 =
    sequenceNumber s + length (appliedDiffs (ingestAll raws s).2) /\
  seqNo <$> appliedDiffs (ingestAll raws s).2 =
    seq (S (sequenceNumber s)) (length (appliedDiffs (ingestAll raws s).2)).
Proof.
  revert s. induction raws as [|raw raws IH]; intros s.
  - simpl. split; [lia|reflexivity].
  - rewrite ingestAll_cons. cbn [fst snd].
    destruct (IH (ingest raw s).1) as [IH1 IH2].
    destruct (ingest raw s).2 as [e|d anomaly] eqn:Ho.
    + pose proof (ingest_rejected raw s e Ho) as Hs.
      rewrite Hs in IH1, IH2 |- *.
      rewrite appliedDiffs_rejected. now split.
    + destruct (ingest_applied raw s d anomaly Ho) as [Hs Hd].
      rewrite Hs in IH1, IH2.
      rewrite appliedDiffs_applied. cbn [length].
      split; [lia|]. rewrite fmap_cons, IH2, Hd. reflexivity.
Qed.

(** C2: every apply advances the sequence number by exactly one, whatever
    vehicle it touches; after [N] applies on the empty store the sequence
    number is [N] and the events carry the numbers [1 .. N].  Through
    [ingest] only the updates that were applied count: a rejected update
    leaves the sequence number alone. *)
Theorem sequence_number_counts_applies (ms : list Mutation) (raws : list RawUpdate) :
  (forall m s, sequenceNumber (Engine.apply m s).1 = S (sequenceNumber s)) /\
  sequenceNumber (applyAll ms emptyStore).1 = length ms /\
  seqNo <$> (applyAll ms emptyStore).2 = seq 1 (length ms) /\
  sequenceNumber (ingestAll raws emptyStore).1 =
    length (appliedDiffs (ingestAll raws emptyStore).2) /\
  seqNo <$> appliedDiffs (ingestAll raws emptyStore).2 =
    seq 1 (length (appliedDiffs (ingestAll raws emptyStore).2)).
Proof.
  split; [apply apply_sequenceNumber|].
  destruct (applyAll_numbering ms emptyStore) as [H1 H2].
  destruct (ingestAll_numbering raws emptyStore) as [H3 H4].
  repeat split; assumption.
Qed.

End EngineFacts.

(* ===================================================================== *)
(** * More facts about the page *)
(* ===================================================================== *)

Module PageFacts.
Import App AppFacts.

(** ** Updates composed *)

Lemma sameId_replaced (b u u' : Bus) :
  sameId (if sameId b u then u else b) u' = sameId b u'.
Proof.
  destruct (sameId b u) eqn:E; [|reflexivity].
  apply sameId_true in E. unfold sameId. now rewrite E.
Qed.

(** X1: two updates in a row.  When they carry the same identifier the
    later one wins and the earlier one leaves no trace; when they carry
    different identifiers their order does not matter. *)
Theorem two_updates_compose (u1 u2 : Bus) (buses : list Bus) :
  busLocationUpdate u2 (busLocationUpdate u1 buses) =
  if sameId u1 u2 then busLocationUpdate u2 buses
  else busLocationUpdate u1 (busLocationUpdate u2 buses).
Proof.
  destruct (sameId u1 u2) eqn:E12.
  - induction buses as [|b bs IH]; [reflexivity|].
    rewrite !busLocationUpdate_cons, IH. f_equal.
    rewrite sameId_replaced.
    destruct (sameId b u1) eqn:E1; [|reflexivity].
    apply sameId_true in E1, E12.
    assert (E2 : sameId b u2 = true) by (apply sameId_true; congruence).
    now rewrite E2.
  - induction buses as [|b bs IH]; [reflexivity|].
    rewrite !busLocationUpdate_cons, IH. f_equal.
    rewrite !sameId_replaced.
    destruct (sameId b u1) eqn:E1, (sameId b u2) eqn:E2; try reflexivity.
    apply sameId_true in E1, E2. apply sameId_false in E12. congruence.
Qed.

Lemma find_app_first {A : Type} (f : A -> bool) (l1 l2 : list A) :
  List.find f (l1 ++ l2) =
  match List.find f l1 with
  | Some x => Some x
  | None => List.find f l2
  end.
Proof.
  induction l1 as [|a l1 IH]; [reflexivity|].
  simpl. now destruct (f a).
Qed.

Lemma find_sameId_replaced (b u : Bus) (us : list Bus) :
  List.find (sameId (if sameId b u then u else b)) us = List.find (sameId b) us.
Proof.
  induction us as [|u' us IH]; [reflexivity|].
  simpl. now rewrite sameId_replaced, IH.
Qed.

(** X2: after any run of updates, the bus at each position is the last
    update of the run that carries its identifier, and the bus it was when
    no update of the run does. *)
Theorem last_update_wins (events : list Bus) (buses : list Bus) (i : nat) :
  afterUpdates events buses !! i =
  (fun bus => default bus (List.find (sameId bus) (rev events))) <$> (buses !! i).
Proof.
  revert buses. induction events as [|u us IH]; intros buses.
  - simpl. now destruct (buses !! i).
  - unfold afterUpdates in *. simpl. rewrite IH, busLocationUpdate_lookup.
    destruct (buses !! i) as [b|]; [|reflexivity]. simpl. f_equal.
    rewrite find_sameId_replaced, find_app_first.
    destruct (List.find (sameId b) (rev us)); [reflexivity|].
    simpl. now destruct (sameId b u).
Qed.

(** ** The selected bus *)



Lemma filter_isSelected_other (clicked : Bus) (bs : list Bus) :
  ~ In (_id clicked) (map _id bs) ->
  List.filter (isSelected (Some clicked)) bs = [].
Proof.
  induction bs as [|b bs IH]; [reflexivity|].
  simpl. intros H.
  assert (E : isSelected (Some clicked) b = false).
  { unfold isSelected. simpl. apply bool_decide_eq_false. intros E. apply H. left. now symmetry. }
  rewrite E. apply IH. intros Hin. apply H. now right.
Qed.

(** X4: with pairwise different identifiers in the list, clicking a listed
    bus highlights that bus and no other. *)
Theorem click_highlights_one (clicked : Bus) (buses : list Bus) :
  List.NoDup (map _id buses) -> In clicked buses ->
  List.filter (isSelected (Some clicked)) buses = [clicked].
Proof.
  induction buses as [|b bs IH]; [intros _ []|].
  simpl. intros Hnd Hin. apply List.NoDup_cons_iff in Hnd as [Hb Hnd].
  destruct Hin as [->|Hin].
  - assert (E : isSelected (Some clicked) clicked = true)
      by (unfold isSelected; simpl; now apply bool_decide_eq_true).
    rewrite E. f_equal. now apply filter_isSelected_other.
  - assert (E : isSelected (Some clicked) b = false).
    { unfold isSelected. simpl. apply bool_decide_eq_false. intros E. apply Hb.
      rewrite <- E. now apply in_map. }
    rewrite E. now apply IH.
Qed.

Lemma click_highlights_one_witness :
  List.filter (isSelected (Some bus764)) [bus534; bus764] = [bus764].
Proof.
  apply (click_highlights_one bus764 [bus534; bus764]).
  - apply List.NoDup_cons; [simpl; intros [H|[]]; discriminate|].
    apply List.NoDup_cons; [intros []|apply List.NoDup_nil].
  - right. left. reflexivity.
Defined.

(** While no bus is selected, [selectedBus?._id] is [undefined]: no bus
    that has an identifier is highlighted, and a document without [_id]
    is. *)
Lemma nothing_selected (bus : Bus) :
  isSelected None bus = true <-> _id bus = None.
Proof.
  unfold isSelected. rewrite bool_decide_eq_true. simpl. split; intros H; now symmetry.
Qed.

(** ** Runs of events *)

Lemma run_snoc (events : list Event) (e : Event) (s : AppState) :
  run (events ++ [e]) s = step e (run events s).
Proof. unfold run. now rewrite fold_left_app. Qed.

Lemma lastFetch_snoc (events : list Event) (e : Event) :
  lastFetch (events ++ [e]) =
  match fetchPhase e with
  | Some p => Some p
  | None => lastFetch events
  end.
Proof.
  unfold lastFetch. rewrite omap_app. simpl.
  destruct (fetchPhase e); [apply last_snoc|now rewrite app_nil_r].
Qed.

(** X5: which screen is shown depends on the fetches alone.  After any run
    of events it is the loading screen when the last fetch event started a
    fetch, the tracker when it delivered the list, the error screen with
    the fixed message when it failed, and the screen shown before the run
    when the run holds no fetch event: socket events, bus updates, typing
    and clicks never change the screen. *)
Theorem screen_follows_last_fetch (events : list Event) (s : AppState) :
  render (run events s) =
  match lastFetch events with
  | None => render s
  | Some Fetching => LoadingScreen
  | Some Fetched => TrackerScreen
  | Some Failed =>
      ErrorScreen "Failed to fetch bus data. Make sure the backend is running."
  end.
Proof.
  induction events as [|e events IH] using rev_ind; [reflexivity|].
  rewrite run_snoc, lastFetch_snoc.
  destruct e; simpl; try reflexivity; exact IH.
Qed.

Lemma step_keeps_ids (e : Event) (s : AppState) :
  isFetchOk e = false -> map _id (buses (step e s)) = map _id (buses s).
Proof.
  destruct e; simpl; try reflexivity; [|discriminate].
  intros _. apply busLocationUpdate_ids.
Qed.

(** X6: only a delivered fetch changes which buses are listed.  Along a
    run without one the identifiers of the list and their order stay as
    they were; in particular the list that starts empty stays empty, so
    updates that arrive before the first fetched list are all dropped. *)
Theorem only_fetch_changes_listing (events : list Event) (s : AppState) :
  Forall (fun e => isFetchOk e = false) events ->
  map _id (buses (run events s)) = map _id (buses s) /\
  length (buses (run events s)) = length (buses s) /\
  (buses s = [] -> buses (run events s) = []).
Proof.
  intros Hall.
  assert (Hids : map _id (buses (run events s)) = map _id (buses s)).
  { revert s. induction Hall as [|e events He _ IH]; intros s; [reflexivity|].
    unfold run in *. simpl. rewrite IH. now apply step_keeps_ids. }
  split; [assumption|]. split.
  - rewrite <- (length_map _id (buses (run events s))), Hids. apply length_map.
  - intros Hnil. rewrite Hnil in Hids.
    destruct (buses (run events s)); [reflexivity|discriminate].
Qed.

Lemma only_fetch_changes_listing_witness :
  map _id (buses (run [Connect; BusLocationUpdate bus534_overfull; Disconnect]
                      (step (FetchOk [bus534; bus764]) initialState)))
    = [Some "b1"; Some "b2"] /\
  buses (run [Connect; BusLocationUpdate bus534; FetchFailed; SetSearchQuery "ito"]
             initialState) = [].
Proof.
  split.
  - apply (only_fetch_changes_listing
             [Connect; BusLocationUpdate bus534_overfull; Disconnect]
             (step (FetchOk [bus534; bus764]) initialState)).
    repeat constructor.
  - apply (only_fetch_changes_listing
             [Connect; BusLocationUpdate bus534; FetchFailed; SetSearchQuery "ito"]
             initialState); [repeat constructor|reflexivity].
Defined.

Lemma lastConnection_snoc (events : list Event) (e : Event) :
  lastConnection (events ++ [e]) =
  match connectionEvent e with
  | Some c => Some c
  | None => lastConnection events
  end.
Proof.
  unfold lastConnection. rewrite omap_app. simpl.
  destruct (connectionEvent e); [apply last_snoc|now rewrite app_nil_r].
Qed.

(** X14: the Online/Offline indicator shows what the socket reported
    last: online after [connect], offline after [disconnect] or
    [connect_error].  Nothing else moves it; a bus update that arrives
    while the page shows Offline leaves it Offline. *)
Theorem indicator_follows_socket (events : list Event) (s : AppState) :
  isConnected (run events s) = default (isConnected s) (lastConnection events).
Proof.
  induction events as [|e events IH] using rev_ind; [reflexivity|].
  rewrite run_snoc, lastConnection_snoc.
  destruct e; simpl; try reflexivity; exact IH.
Qed.

Lemma run_app (events1 events2 : list Event) (s : AppState) :
  run (events1 ++ events2) s = run events2 (run events1 s).
Proof. unfold run. apply fold_left_app. Qed.

Lemma buses_without_fetch (events : list Event) (s : AppState) :
  Forall (fun e => isFetchOk e = false) events ->
  buses (run events s) = afterUpdates (updatesOf events) (buses s).
Proof.
  intros Hall. revert s.
  induction Hall as [|e events He _ IH]; intros s; [reflexivity|].
  change (run (e :: events) s) with (run events (step e s)). rewrite IH.
  destruct e; try reflexivity. discriminate.
Qed.

(** X15: what the list holds.  After a delivered fetch and any further
    events without another one, the list is the fetched list with the bus
    updates received since applied in order; nothing that happened before
    the fetch, updates included, has any effect on it. *)
Theorem listing_is_last_fetch_plus_updates
    (before after : list Event) (data : list Bus) (s : AppState) :
  Forall (fun e => isFetchOk e = false) after ->
  buses (run (before ++ FetchOk data :: after) s) = afterUpdates (updatesOf after) data.
Proof.
  intros Hall. rewrite run_app.
  change (run (FetchOk data :: after) (run before s))
    with (run after (step (FetchOk data) (run before s))).
  now rewrite buses_without_fetch.
Qed.

Lemma listing_is_last_fetch_plus_updates_witness :
  buses (run ([FetchStart; BusLocationUpdate bus534_unknown]
              ++ FetchOk [bus534; bus764]
              :: [Disconnect; BusLocationUpdate bus534_overfull; SetSearchQuery "ito"])
             initialState)
  = afterUpdates [bus534_overfull] [bus534; bus764].
Proof.
  apply (listing_is_last_fetch_plus_updates
           [FetchStart; BusLocationUpdate bus534_unknown]
           [Disconnect; BusLocationUpdate bus534_overfull; SetSearchQuery "ito"]
           [bus534; bus764] initialState).
  repeat constructor.
Defined.

(** ** The route dropdown *)

Lemma filter_filter_andb {A : Type} (f g : A -> bool) (l : list A) :
  List.filter f (List.filter g l) = List.filter (fun x => g x && f x) l.
Proof.
  induction l as [|a l IH]; [reflexivity|].
  simpl. destruct (g a); simpl; [|assumption].
  destruct (f a); now rewrite IH.
Qed.

Lemma setAdd_nil (y : string) : setAdd [] y = [y].
Proof. reflexivity. Qed.

Lemma notIn_app (seen1 seen2 : list string) (z : string) :
  notIn (seen1 ++ seen2) z = notIn seen1 z && notIn seen2 z.
Proof.
  unfold notIn. rewrite <- negb_orb. f_equal.
  apply eq_true_iff_eq. rewrite orb_true_iff, !bool_decide_eq_true, elem_of_app.
  reflexivity.
Qed.

Lemma notIn_absorbs (seen : list string) (y z : string) :
  y ∈ seen -> notIn [y] z && notIn seen z = notIn seen z.
Proof.
  intros Hy. unfold notIn.
  destruct (bool_decide (z ∈ seen)) eqn:Ez; simpl; [apply andb_false_r|].
  rewrite andb_true_r. apply bool_decide_eq_false in Ez.
  apply negb_true_iff, bool_decide_eq_false.
  rewrite list_elem_of_singleton. intros ->. now apply Ez.
Qed.

Lemma setAdd_seen (seen : list string) (y : string) :
  y ∈ seen -> setAdd seen y = seen /\ notIn seen y = false.
Proof.
  intros H. unfold setAdd, notIn.
  now rewrite (bool_decide_eq_true_2 _ H).
Qed.

Lemma setAdd_new (seen : list string) (y : string) :
  y ∉ seen -> setAdd seen y = seen ++ [y] /\ notIn seen y = true.
Proof.
  intros H. unfold setAdd, notIn.
  now rewrite (bool_decide_eq_false_2 _ H).
Qed.

Lemma setAdd_fold (l seen : list string) :
  fold_left setAdd l seen = seen ++ List.filter (notIn seen) (fold_left setAdd l []).
Proof.
  revert seen. induction l as [|y l IH]; intros seen.
  - simpl. now rewrite app_nil_r.
  - simpl. rewrite (IH (setAdd seen y)), setAdd_nil, (IH [y]).
    rewrite List.filter_app, filter_filter_andb. simpl.
    destruct (decide (y ∈ seen)) as [Hy|Hy].
    + destruct (setAdd_seen seen y Hy) as [-> ->]. simpl.
      f_equal. apply List.filter_ext. intros z.
      symmetry. now apply notIn_absorbs.
    + destruct (setAdd_new seen y Hy) as [-> ->].
      rewrite <- app_assoc. simpl. f_equal. f_equal.
      apply List.filter_ext. intros z. rewrite notIn_app. apply andb_comm.
Qed.

Lemma routes_cons (b : Bus) (bs : list Bus) :
  routes (b :: bs) = routeNumber b :: List.filter (notIn [routeNumber b]) (routes bs).
Proof.
  unfold routes. simpl. rewrite setAdd_fold. reflexivity.
Qed.

Lemma notIn_singleton (x r : string) : notIn [x] r = true <-> r <> x.
Proof.
  unfold notIn. rewrite negb_true_iff, bool_decide_eq_false, list_elem_of_singleton.
  reflexivity.
Qed.

Lemma elem_of_filter_bool {A : Type} (f : A -> bool) (l : list A) (x : A) :
  x ∈ List.filter f l <-> x ∈ l /\ f x = true.
Proof. rewrite !list_elem_of_In. apply List.filter_In. Qed.

Lemma NoDup_filter_bool {A : Type} (f : A -> bool) (l : list A) :
  NoDup l -> NoDup (List.filter f l).
Proof.
  induction 1 as [|x l Hx Hl IH]; simpl; [constructor|].
  destruct (f x); [|assumption].
  constructor; [|assumption]. rewrite elem_of_filter_bool. tauto.
Qed.

(** X7: the route dropdown offers every route number of the list exactly
    once, in the order in which the routes first occur in the list: the
    route of the first bus comes first, followed by the routes of the
    other buses without it. *)
Theorem routes_unique_in_first_occurrence_order (buses : list Bus) :
  NoDup (routes buses) /\
  (forall r, r ∈ routes buses <-> exists b, b ∈ buses /\ routeNumber b = r) /\
  sublist (routes buses) (map routeNumber buses) /\
  (forall b bs, buses = b :: bs ->
     routes buses = routeNumber b :: List.filter (notIn [routeNumber b]) (routes bs)).
Proof.
  split; [|split; [|split]].
  - induction buses as [|b bs IH]; [constructor|].
    rewrite routes_cons. constructor; [|now apply NoDup_filter_bool].
    rewrite elem_of_filter_bool, notIn_singleton. tauto.
  - induction buses as [|b bs IH]; intros r.
    + split; [intros H; inversion H|intros (b & H & _); inversion H].
    + rewrite routes_cons, elem_of_cons, elem_of_filter_bool, notIn_singleton, IH.
      split.
      * intros [->|[(b' & Hb' & <-) _]]; [exists b; split; [left|reflexivity]|].
        exists b'. split; [now right|reflexivity].
      * intros (b' & Hb' & <-). apply elem_of_cons in Hb' as [->|Hb']; [now left|].
        destruct (decide (routeNumber b' = routeNumber b)) as [E|E]; [now left|].
        right. split; [|assumption]. now exists b'.
  - induction buses as [|b bs IH]; [constructor|].
    rewrite routes_cons. simpl. constructor.
    etransitivity; [apply filter_sublist_of|exact IH].
  - intros b bs ->. apply routes_cons.
Qed.

(** ** Search and filter, continued *)

Lemma matchesFilter_route_only (r : string) (b : Bus) :
  matchesFilter r "" b = isEmpty r || String.eqb (routeNumber b) r.
Proof. unfold matchesFilter. simpl. apply andb_true_r. Qed.

Lemma matchesFilter_splits (r q : string) (b : Bus) :
  matchesFilter r q b = matchesFilter r "" b && matchesFilter "" q b.
Proof. rewrite matchesFilter_route_only. reflexivity. Qed.

(** X8: the route filter and the search box act independently of each
    other: filtering by both is filtering by the one and then by the other,
    in either order. *)
Theorem filters_compose (r q : string) (buses : list Bus) :
  filteredBuses r q buses = filteredBuses r "" (filteredBuses "" q buses) /\
  filteredBuses r q buses = filteredBuses "" q (filteredBuses r "" buses).
Proof.
  unfold filteredBuses. rewrite !filter_filter_andb. split.
  - apply List.filter_ext. intros b. rewrite (matchesFilter_splits r q b). apply andb_comm.
  - apply List.filter_ext. intros b. apply matchesFilter_splits.
Qed.

(** X9: every route that the dropdown offers selects at least one bus, and
    a non-empty route selects only buses of that route (the search box
    being empty). *)
Theorem offered_route_lists_a_bus (r : string) (buses : list Bus) :
  r ∈ routes buses ->
  (exists b, In b (filteredBuses r "" buses) /\ routeNumber b = r) /\
  (r <> "" -> Forall (fun b => routeNumber b = r) (filteredBuses r "" buses)).
Proof.
  intros Hr. split.
  - assert (Hb : exists b, b ∈ buses /\ routeNumber b = r).
    { clear -Hr. induction buses as [|b bs IH]; [inversion Hr|].
      rewrite routes_cons in Hr. apply elem_of_cons in Hr as [->|Hr].
      - exists b. split; [left|reflexivity].
      - apply elem_of_filter_bool in Hr as [Hr _].
        destruct (IH Hr) as (b' & Hb' & E). exists b'. split; [now right|assumption]. }
    destruct Hb as (b & Hb & E). exists b. split; [|assumption].
    apply List.filter_In. split; [now apply list_elem_of_In|].
    rewrite matchesFilter_route_only, E, String.eqb_refl. apply orb_true_r.
  - intros Hne. apply Forall_forall. intros b Hb.
    apply list_elem_of_In, List.filter_In in Hb as [_ Hb].
    rewrite matchesFilter_route_only in Hb.
    apply orb_true_iff in Hb as [Hb|Hb].
    + apply String.eqb_eq in Hb. contradiction.
    + now apply String.eqb_eq.
Qed.

Lemma offered_route_lists_a_bus_witness :
  (exists b, In b (filteredBuses "764" "" [bus534; bus764; bus534_unknown]) /\
             routeNumber b = "764") /\
  ("764" <> "" ->
   Forall (fun b => routeNumber b = "764")
          (filteredBuses "764" "" [bus534; bus764; bus534_unknown])).
Proof.
  apply (offered_route_lists_a_bus "764" [bus534; bus764; bus534_unknown]).
  vm_compute. right. left.
Defined.

Lemma isEmpty_toLowerCase (q : string) : isEmpty (toLowerCase q) = isEmpty q.
Proof. now destruct q. Qed.

(** X10: the search ignores the letter case of what is typed: two queries
    that differ only in the case of ASCII letters list the same buses. *)
Theorem search_ignores_case_of_query (r q1 q2 : string) (buses : list Bus) :
  toLowerCase q1 = toLowerCase q2 ->
  filteredBuses r q1 buses = filteredBuses r q2 buses.
Proof.
  intros H. apply List.filter_ext. intros b. unfold matchesFilter.
  rewrite <- (isEmpty_toLowerCase q1), <- (isEmpty_toLowerCase q2), H.
  reflexivity.
Qed.

Lemma search_ignores_case_of_query_witness :
  filteredBuses "" "Anand VIHAR" [bus534; bus764] =
  filteredBuses "" "anand vihar" [bus534; bus764].
Proof.
  apply (search_ignores_case_of_query "" "Anand VIHAR" "anand vihar" [bus534; bus764]).
  reflexivity.
Defined.

Lemma includes_unfold (s sub : string) :
  includes s sub =
  String.prefix sub s ||
  match s with
  | EmptyString => false
  | String _ s' => includes s' sub
  end.
Proof. now destruct s. Qed.

Lemma prefix_true (sub s : string) :
  String.prefix sub s = true <-> exists post, s = sub +:+ post.
Proof.
  revert s. induction sub as [|a sub IH]; intros s.
  - split; [intros _; now exists s|intros _; now destruct s].
  - destruct s as [|c s]; simpl.
    + split; [discriminate|intros (post & H); discriminate].
    + destruct (ascii_dec a c) as [->|Hne].
      * rewrite IH. split; intros (post & H); exists post;
          [now rewrite H|now injection H].
      * split; [discriminate|]. intros (post & H). injection H as H _. now symmetry in H.
Qed.

Lemma includes_true (s sub : string) :
  includes s sub = true <-> exists pre post, s = pre +:+ sub +:+ post.
Proof.
  induction s as [|c s IH]; rewrite includes_unfold, orb_true_iff, prefix_true.
  - split.
    + intros [(post & H)|H]; [|discriminate]. now exists "", post.
    + intros (pre & post & H). left. destruct pre; [now exists post|discriminate].
  - rewrite IH. split.
    + intros [(post & H)|(pre & post & H)]; [now exists "", post|].
      exists (String c pre), post. simpl. now rewrite H.
    + intros (pre & post & H). destruct pre as [|c' pre]; [left; now exists post|].
      right. exists pre, post. simpl in H. now injection H.
Qed.

Lemma includes_lower (q field : string) :
  includes (toLowerCase field) (toLowerCase q) = true <-> occursIn q field.
Proof. apply includes_true. Qed.

Lemma occursIn_empty (q : string) : occursIn q "" -> q = "".
Proof.
  intros (pre & post & H). simpl in H.
  destruct pre; [|discriminate]. simpl in H.
  destruct q; [reflexivity|discriminate].
Qed.

(** X11: what the search box finds in ASCII text.  For a query and a bus
    whose searched fields are made of ASCII characters, and with no route
    selected, the bus is listed exactly when it is in the list and the
    query is empty or occurs, letter case ignored, in its route number,
    its origin, its destination or its current stop; an absent current
    stop is never searched. *)
Theorem search_finds_ascii_occurrences (q : string) (buses : list Bus) (b : Bus) :
  isAsciiString q = true -> searchableAscii b = true ->
  (In b (filteredBuses "" q buses) <->
   In b buses /\
   (q = "" \/ occursIn q (routeNumber b) \/ occursIn q (from b) \/ occursIn q (to b) \/
    exists stop, currentStop b = Some stop /\ occursIn q stop)).
Proof.
  intros _ _.
  unfold filteredBuses. rewrite List.filter_In. apply and_iff_compat_l.
  unfold matchesFilter. simpl.
  rewrite !orb_true_iff, !includes_lower. unfold isEmpty at 1. rewrite String.eqb_eq.
  split.
  - intros [[[[H|H]|H]|H]|H]; auto.
    destruct (currentStop b) as [stop|]; [|discriminate].
    apply andb_true_iff in H as [_ H]. apply includes_lower in H.
    do 4 right. now exists stop.
  - intros [H|[H|[H|[H|(stop & Hs & H)]]]]; auto.
    rewrite Hs. destruct (isEmpty stop) eqn:E.
    + apply String.eqb_eq in E. subst stop. apply occursIn_empty in H. auto 10.
    + right. simpl. now apply includes_lower.
Qed.

Lemma search_finds_ascii_occurrences_witness :
  In bus534 (filteredBuses "" "VIHAR" [bus534; bus764]) <->
  In bus534 [bus534; bus764] /\
  ("VIHAR" = "" \/ occursIn "VIHAR" (routeNumber bus534) \/
   occursIn "VIHAR" (from bus534) \/ occursIn "VIHAR" (to bus534) \/
   exists stop, currentStop bus534 = Some stop /\ occursIn "VIHAR" stop).
Proof.
  apply (search_finds_ascii_occurrences "VIHAR" [bus534; bus764] bus534); reflexivity.
Defined.

Example search_sample :
  filteredBuses "" "VIHAR" [bus534; bus764] = [bus534] /\
  occursIn "VIHAR" (from bus534) /\
  filteredBuses "" "Pragati" [bus534; bus764] = [].
Proof.
  split; [reflexivity|]. split; [|reflexivity].
  exists "anand ", "". reflexivity.
Qed.

(** ** Markers and colours *)

Lemma markerLeft_mod (i : nat) : markerLeft i = 20 + 15 * (i mod 4).
Proof.
  unfold markerLeft. f_equal.
  pose proof (Nat.div_mod_eq (i * 15) 60). pose proof (Nat.mod_upper_bound (i * 15) 60).
  pose proof (Nat.div_mod_eq i 4). pose proof (Nat.mod_upper_bound i 4).
  lia.
Qed.

Lemma markerTop_mod (i : nat) : markerTop i = 25 + 20 * ((i mod 4) mod 2).
Proof.
  unfold markerTop. f_equal.
  pose proof (Nat.div_mod_eq (i * 20) 40). pose proof (Nat.mod_upper_bound (i * 20) 40).
  pose proof (Nat.div_mod_eq i 4). pose proof (Nat.mod_upper_bound i 4).
  pose proof (Nat.div_mod_eq (i mod 4) 2). pose proof (Nat.mod_upper_bound (i mod 4) 2).
  lia.
Qed.

(** X12: the map has four marker positions.  Every marker lies between 20
    and 65 per cent from the left and between 25 and 45 per cent from the
    top, and two buses of the filtered list are drawn on the same spot
    exactly when their positions in the list differ by a multiple of
    four. *)
Theorem markers_repeat_every_four (i j : nat) :
  20 <= markerLeft i <= 65 /\ 25 <= markerTop i <= 45 /\
  ((markerLeft i, markerTop i) = (markerLeft j, markerTop j) <-> i mod 4 = j mod 4).
Proof.
  rewrite !markerLeft_mod, !markerTop_mod.
  pose proof (Nat.mod_upper_bound i 4). pose proof (Nat.mod_upper_bound j 4).
  pose proof (Nat.mod_upper_bound (i mod 4) 2).
  split; [lia|]. split; [lia|]. split.
  - intros E. apply (f_equal fst) in E. cbn [fst] in E. lia.
  - now intros ->.
Qed.




End PageFacts.
